(** * core-js-101, [src/05-objects-tasks.js]: Rectangle and the CSS selector builder

    A shallow embedding of the JavaScript module.

    - [Rectangle] is a record; JavaScript numbers are IEEE-754 binary64
      values, modelled by Rocq's primitive floats.
    - A method of [class Builder] is a computation over the fields of its
      receiver [this] that either returns or throws.  A throw keeps the
      assignments made before it, exactly as a JavaScript exception leaves
      the object.  Every appender ends in [return this]: the returned
      reference is the receiver, so the computation returns [tt] and the
      receiver is the state that is threaded on.
    - The counters and [callQueue] only ever hold the literals 0..6 and
      values obtained from them by [+= 1]; they are modelled in [N].  On a
      JavaScript number [+= 1] is exact below 2^53 and rounds back to 2^53
      there, so the counters of the model are those of the code up to that
      value; what the appenders return or throw, the text and [callQueue]
      do not depend on it.  A statement about the value of a counter after
      an increment carries the bound [exact_increment_limit].
    - Values passed to the appenders are strings; [a + b] and template
      literals on strings are [String.append]. *)

From Stdlib Require Import String Ascii List NArith ZArith Bool Lia Sorted Floats.
Import ListNotations.
Local Open Scope string_scope.
Local Open Scope N_scope.

(* ------------------------------------------------------------------ *)
(** ** Rectangle *)

Module RectangleTask.

(** The object literal [{ width, height, getArea }]. *)
Record RectangleObject : Type := mkRectangle
  { width : float;
    height : float;
    getArea : unit -> float }.

(** [function Rectangle(width, height)]: the arrow function closes over
    the two parameters. *)
Definition Rectangle (width height : float) : RectangleObject :=
  {| width := width;
     height := height;
     getArea := fun _ => (height * width)%float |}.

End RectangleTask.

(* ------------------------------------------------------------------ *)
(** ** Exceptions and method computations *)

(** [new Error(message)]. *)
Inductive exn : Type := Error (message : string).

Definition order_message : string :=
  "Selector parts should be arranged in the following order: element, id, class, attribute, pseudo-class, pseudo-element".

Definition count_message : string :=
  "Element, id and pseudo-element should not occur more then one time inside the selector".

(** The two kinds of failure the builder knows. *)
Definition OrderingError : exn := Error order_message.
Definition CardinalityError : exn := Error count_message.

(** How a call ends. *)
Inductive outcome (A : Type) : Type :=
| Return (a : A)
| Throw (e : exn).
Arguments Return {A} a.
Arguments Throw {A} e.

(** The fields of a [Builder] object. *)
Record Builder : Type := mkBuilder
  { elements : N;
    ids : N;
    pseudoElements : N;
    callQueue : N;
    values : string }.

Definition set_elements (n : N) (this : Builder) : Builder :=
  mkBuilder n (ids this) (pseudoElements this) (callQueue this) (values this).
Definition set_ids (n : N) (this : Builder) : Builder :=
  mkBuilder (elements this) n (pseudoElements this) (callQueue this) (values this).
Definition set_pseudoElements (n : N) (this : Builder) : Builder :=
  mkBuilder (elements this) (ids this) n (callQueue this) (values this).
Definition set_callQueue (n : N) (this : Builder) : Builder :=
  mkBuilder (elements this) (ids this) (pseudoElements this) n (values this).
Definition set_values (s : string) (this : Builder) : Builder :=
  mkBuilder (elements this) (ids this) (pseudoElements this) (callQueue this) s.

(** A method body: it reads and assigns the receiver's fields and ends by
    returning a value or by throwing. *)
Definition M (A : Type) : Type := Builder -> outcome A * Builder.

Definition ret {A} (a : A) : M A := fun this => (Return a, this).

Definition throw {A} (e : exn) : M A := fun this => (Throw e, this).

Definition bind {A B} (m : M A) (k : A -> M B) : M B :=
  fun this =>
    match m this with
    | (Return a, this') => k a this'
    | (Throw e, this') => (Throw e, this')
    end.

Definition get : M Builder := fun this => (Return this, this).

Definition modify (f : Builder -> Builder) : M unit :=
  fun this => (Return tt, f this).

(** [if (c) stmt;] *)
Definition when (c : bool) (m : M unit) : M unit := if c then m else ret tt.

Declare Scope method_scope.
Delimit Scope method_scope with method.
Notation "x <- m ;; k" := (bind m (fun x => k))
  (at level 61, m at next level, right associativity) : method_scope.
Notation "m ;; k" := (bind m (fun _ => k))
  (at level 61, right associativity) : method_scope.
Local Open Scope method_scope.

(** The result of a call and the receiver after it. *)
Definition result {A} (m : M A) (this : Builder) : outcome A := fst (m this).
Definition after {A} (m : M A) (this : Builder) : Builder := snd (m this).

(* ------------------------------------------------------------------ *)
(** ** [class Builder] *)

Definition orderError {A} : M A := throw OrderingError.

Definition countError {A} : M A := throw CardinalityError.

(** [constructor(value = '', first)]; every caller passes both arguments. *)
Definition constructor (value : string) (first : N) : Builder :=
  let this := mkBuilder 0 0 0 first "" in
  let this := if first =? 1 then set_elements 1 this else this in
  let this := if first =? 2 then set_ids 1 this else this in
  let this := if first =? 6 then set_pseudoElements 1 this else this in
  set_values value this.

Module Builder.

(** [checkQueue(callQueue)]; the parameter is [queue] here, and
    [this.callQueue > queue] is written [queue <? callQueue this]. *)
Definition checkQueue (queue : N) : M unit :=
  this <- get ;;
  when (queue <? callQueue this) orderError ;;
  modify (set_callQueue queue).

Definition element (value : string) : M unit :=
  checkQueue 1 ;;
  modify (fun this => set_elements (elements this + 1) this) ;;
  this <- get ;;
  when (1 <? elements this) countError ;;
  modify (fun this => set_values (values this ++ value) this).

Definition id (value : string) : M unit :=
  checkQueue 2 ;;
  modify (fun this => set_ids (ids this + 1) this) ;;
  this <- get ;;
  when (1 <? ids this) countError ;;
  modify (fun this => set_values (values this ++ "#" ++ value) this).

Definition class (value : string) : M unit :=
  checkQueue 3 ;;
  modify (fun this => set_values (values this ++ "." ++ value) this).

Definition attr (value : string) : M unit :=
  checkQueue 4 ;;
  modify (fun this => set_values (values this ++ "[" ++ value ++ "]") this).

Definition pseudoClass (value : string) : M unit :=
  checkQueue 5 ;;
  modify (fun this => set_values (values this ++ ":" ++ value) this).

Definition pseudoElement (value : string) : M unit :=
  checkQueue 6 ;;
  modify (fun this => set_pseudoElements (pseudoElements this + 1) this) ;;
  this <- get ;;
  when (1 <? pseudoElements this) countError ;;
  modify (fun this => set_values (values this ++ "::" ++ value) this).

Definition stringify : M string :=
  this <- get ;;
  ret (values this).

End Builder.

(* ------------------------------------------------------------------ *)
(** ** Selectors and the facade [cssSelectorBuilder] *)

(** The objects of this module that answer [stringify()]: a [Builder], in
    the state it has when it is asked, and the object literal returned by
    [combine], which keeps its three arguments. *)
Inductive Selector : Type :=
| Simple (b : Builder)
| Combined (selector1 : Selector) (combinator : string) (selector2 : Selector).

(** [selector.stringify()].  For a combined selector this is the template
    literal of [combine]: the left operand is asked first, then the right
    one.  A [Builder] is unchanged by the question (see [stringify_spec]),
    so only the result is kept. *)
Fixpoint stringify (s : Selector) : outcome string :=
  match s with
  | Simple b => result Builder.stringify b
  | Combined selector1 combinator selector2 =>
      match stringify selector1 with
      | Throw e => Throw e
      | Return s1 =>
          match stringify selector2 with
          | Throw e => Throw e
          | Return s2 => Return (s1 ++ " " ++ combinator ++ " " ++ s2)
          end
      end
  end.

Module cssSelectorBuilder.

Definition element (value : string) : Builder := constructor value 1.

Definition id (value : string) : Builder := constructor ("#" ++ value) 2.

Definition class (value : string) : Builder := constructor ("." ++ value) 3.

Definition attr (value : string) : Builder :=
  constructor ("[" ++ value ++ "]") 4.

Definition pseudoClass (value : string) : Builder :=
  constructor (":" ++ value) 5.

Definition pseudoElement (value : string) : Builder :=
  constructor ("::" ++ value) 6.

Definition combine (selector1 : Selector) (combinator : string)
    (selector2 : Selector) : Selector :=
  Combined selector1 combinator selector2.

End cssSelectorBuilder.

(* ------------------------------------------------------------------ *)
(** ** Stages and call sequences *)

(** The six grammar stages, one per appender. *)
Inductive Stage : Type :=
| ElementStage
| IdStage
| ClassStage
| AttributeStage
| PseudoClassStage
| PseudoElementStage.

Definition Stage_eq_dec (s t : Stage) : {s = t} + {s <> t}.
Proof. decide equality. Defined.

(** Position of a stage in the sequence element, id, class, attribute,
    pseudo-class, pseudo-element. *)
Definition ordinal (s : Stage) : N :=
  match s with
  | ElementStage => 1
  | IdStage => 2
  | ClassStage => 3
  | AttributeStage => 4
  | PseudoClassStage => 5
  | PseudoElementStage => 6
  end.

(** The stages that may occur once only. *)
Definition singleton (s : Stage) : bool :=
  match s with
  | ElementStage | IdStage | PseudoElementStage => true
  | _ => false
  end.

(** The counter a singleton stage owns. *)
Definition counter (s : Stage) (this : Builder) : N :=
  match s with
  | ElementStage => elements this
  | IdStage => ids this
  | PseudoElementStage => pseudoElements this
  | _ => 0
  end.

(** The value of a stage with its fixed decoration. *)
Definition decorated (s : Stage) (value : string) : string :=
  match s with
  | ElementStage => value
  | IdStage => "#" ++ value
  | ClassStage => "." ++ value
  | AttributeStage => "[" ++ value ++ "]"
  | PseudoClassStage => ":" ++ value
  | PseudoElementStage => "::" ++ value
  end.

(** [this.<stage>(value)] on an existing accumulator. *)
Definition append (s : Stage) (value : string) : M unit :=
  match s with
  | ElementStage => Builder.element value
  | IdStage => Builder.id value
  | ClassStage => Builder.class value
  | AttributeStage => Builder.attr value
  | PseudoClassStage => Builder.pseudoClass value
  | PseudoElementStage => Builder.pseudoElement value
  end.

(** [cssSelectorBuilder.<stage>(value)]: a fresh accumulator. *)
Definition start (s : Stage) (value : string) : Builder :=
  match s with
  | ElementStage => cssSelectorBuilder.element value
  | IdStage => cssSelectorBuilder.id value
  | ClassStage => cssSelectorBuilder.class value
  | AttributeStage => cssSelectorBuilder.attr value
  | PseudoClassStage => cssSelectorBuilder.pseudoClass value
  | PseudoElementStage => cssSelectorBuilder.pseudoElement value
  end.

Definition Call : Type := (Stage * string)%type.

(** A fluent chain [this.s1(v1).s2(v2)...]: the first throw ends it. *)
Fixpoint chain (calls : list Call) : M unit :=
  match calls with
  | [] => ret tt
  | (s, value) :: rest => append s value ;; chain rest
  end.

(** The same calls made one statement at a time on one object, every
    exception caught by the caller: the object keeps whatever each call
    did to it. *)
Fixpoint perform (calls : list Call) (this : Builder) : Builder :=
  match calls with
  | [] => this
  | (s, value) :: rest => perform rest (after (append s value) this)
  end.

(** The text a call sequence denotes: decorated values in call order. *)
Fixpoint rendered (calls : list Call) : string :=
  match calls with
  | [] => ""
  | (s, value) :: rest => decorated s value ++ rendered rest
  end.

(** The grammar order, and each singleton stage at most once. *)
Definition in_grammar_order (calls : list Call) : Prop :=
  Sorted (fun c d : Call => ordinal (fst c) <= ordinal (fst d)) calls.

Definition occurrences (s : Stage) (calls : list Call) : nat :=
  count_occ Stage_eq_dec (map fst calls) s.

Definition singletons_once (calls : list Call) : Prop :=
  forall s, singleton s = true -> (occurrences s calls <= 1)%nat.

(** The receiver once the ordering check of stage [s] has passed and the
    counter of [s], if it owns one, has been incremented. *)
Definition entered (s : Stage) (this : Builder) : Builder :=
  let this := set_callQueue (ordinal s) this in
  match s with
  | ElementStage => set_elements (elements this + 1) this
  | IdStage => set_ids (ids this + 1) this
  | PseudoElementStage => set_pseudoElements (pseudoElements this + 1) this
  | _ => this
  end.

(** Some call of the sequence is at a stage later than [queue]. *)
Definition reaches_beyond (queue : N) (calls : list Call) : bool :=
  existsb (fun c : Call => queue <? ordinal (fst c)) calls.

(** No singleton stage has been counted more than once. *)
Definition counters_bounded (this : Builder) : Prop :=
  elements this <= 1 /\ ids this <= 1 /\ pseudoElements this <= 1.

(** The first call of the sequence, if any, is at stage [queue] or later. *)
Definition not_before (queue : N) (calls : list Call) : Prop :=
  match calls with
  | [] => True
  | c :: _ => queue <= ordinal (fst c)
  end.

(** What a chain needs of the accumulator it continues: it is in grammar
    order, its first call is not before the last stage applied, and no
    singleton stage is used more often than its counter still allows. *)
Definition continues (this : Builder) (calls : list Call) : Prop :=
  in_grammar_order calls
  /\ not_before (callQueue this) calls
  /\ forall s : Stage,
       singleton s = true ->
       counter s this + N.of_nat (occurrences s calls) <= 1.

(** The latest stage among [queue] and the stages of the calls. *)
Definition latest (queue : N) (calls : list Call) : N :=
  fold_left (fun q (c : Call) => N.max q (ordinal (fst c))) calls queue.

(** The texts of the accumulators and the tokens of a selector, read from
    left to right. *)
Fixpoint parts (s : Selector) : list string :=
  match s with
  | Simple b => [values b]
  | Combined selector1 combinator selector2 =>
      parts selector1 ++ combinator :: parts selector2
  end.

(** The calls of a sequence that returned, when the calls are made one by
    one on [this] and every exception is caught. *)
Fixpoint accepted (calls : list Call) (this : Builder) : list Call :=
  match calls with
  | [] => []
  | (s, value) :: rest =>
      let kept := accepted rest (after (append s value) this) in
      match result (append s value) this with
      | Return _ => (s, value) :: kept
      | Throw _ => kept
      end
  end.

(** [clean] is an accumulator on which only the calls that returned on
    [this] were made. *)
Definition shadows (this clean : Builder) : Prop :=
  values this = values clean
  /\ callQueue clean <= callQueue this
  /\ forall t : Stage, counter t clean <= counter t this.

(** The results of the calls of a sequence, made one by one on [this]
    with every exception caught. *)
Fixpoint outcomes (calls : list Call) (this : Builder) : list (outcome unit) :=
  match calls with
  | [] => []
  | (s, value) :: rest =>
      result (append s value) this
        :: outcomes rest (after (append s value) this)
  end.

(** [counter += 1] is exact on a JavaScript number below 2^53; at 2^53
    the sum rounds back to 2^53.  The counters of the model agree with
    the code up to this value. *)
Definition exact_increment_limit : N := 2 ^ 53.

(** A double quote, for the attribute example of the documentation. *)
Definition dq : string := String (ascii_of_nat 34) EmptyString.

(* ------------------------------------------------------------------ *)
(** ** The examples of the documentation *)

Example doc_example_1 :
  chain [(ClassStage, "container"); (ClassStage, "editable")]
        (cssSelectorBuilder.id "main")
  = (Return tt, mkBuilder 0 1 0 3 "#main.container.editable").
Proof. reflexivity. Qed.

Example doc_example_2 :
  result (chain [(AttributeStage, "href$=" ++ dq ++ ".png" ++ dq);
                 (PseudoClassStage, "focus")] ;; Builder.stringify)
         (cssSelectorBuilder.element "a")
  = Return ("a[href$=" ++ dq ++ ".png" ++ dq ++ "]:focus").
Proof. reflexivity. Qed.

Example doc_example_3 :
  stringify
    (cssSelectorBuilder.combine
       (Simple (after (chain [(IdStage, "main"); (ClassStage, "container");
                              (ClassStage, "draggable")])
                      (cssSelectorBuilder.element "div")))
       "+"
       (cssSelectorBuilder.combine
          (Simple (after (Builder.id "data") (cssSelectorBuilder.element "table")))
          "~"
          (cssSelectorBuilder.combine
             (Simple (after (Builder.pseudoClass "nth-of-type(even)")
                            (cssSelectorBuilder.element "tr")))
             " "
             (Simple (after (Builder.pseudoClass "nth-of-type(even)")
                            (cssSelectorBuilder.element "td"))))))
  = Return "div#main.container.draggable + table#data ~ tr:nth-of-type(even)   td:nth-of-type(even)".
Proof. reflexivity. Qed.

Example attr_then_element_throws :
  result (Builder.element "y") (cssSelectorBuilder.attr "x") = Throw OrderingError.
Proof. reflexivity. Qed.

(* ------------------------------------------------------------------ *)
(** ** What one append does *)

Lemma errors_differ : OrderingError <> CardinalityError.
Proof. unfold OrderingError, CardinalityError. discriminate. Qed.

Lemma Throw_inj {A} (e1 e2 : exn) : @Throw A e1 = Throw e2 -> e1 = e2.
Proof.
  intro H.
  exact (f_equal (fun o => match o with Throw e => e | Return _ => e1 end) H).
Qed.

Lemma cardinality_is_not_ordering {A} :
  @Throw A CardinalityError <> Throw OrderingError.
Proof. intro H. apply Throw_inj in H. symmetry in H. exact (errors_differ H). Qed.

Lemma checkQueue_spec (queue : N) (this : Builder) :
  Builder.checkQueue queue this =
    if queue <? callQueue this then (Throw OrderingError, this)
    else (Return tt, set_callQueue queue this).
Proof.
  unfold Builder.checkQueue, bind, get, when, orderError, throw, modify, ret.
  destruct (queue <? callQueue this); reflexivity.
Qed.

Ltac run_method :=
  unfold append, Builder.element, Builder.id, Builder.class, Builder.attr,
    Builder.pseudoClass, Builder.pseudoElement;
  unfold bind at 1; rewrite checkQueue_spec.

(** The three ways an append can end, in closed form. *)
Lemma append_spec (s : Stage) (value : string) (this : Builder) :
  append s value this =
    if ordinal s <? callQueue this then (Throw OrderingError, this)
    else if singleton s && (0 <? counter s this)
      then (Throw CardinalityError, entered s this)
      else (Return tt,
            set_values (values this ++ decorated s value) (entered s this)).
Proof.
  destruct s; run_method; cbn [ordinal singleton counter andb];
    destruct (_ <? callQueue this); try reflexivity;
    unfold bind, modify, get, when, countError, throw, ret, entered;
    cbn -[N.ltb N.add];
    match goal with
    | |- context [1 <? ?c + 1] =>
        replace (1 <? c + 1) with (0 <? c)
          by (destruct (N.ltb_spec 0 c), (N.ltb_spec 1 (c + 1)); lia || reflexivity)
    end;
    destruct (0 <? _); reflexivity.
Qed.

Lemma result_append (s : Stage) (value : string) (this : Builder) :
  result (append s value) this =
    if ordinal s <? callQueue this then Throw OrderingError
    else if singleton s && (0 <? counter s this) then Throw CardinalityError
    else Return tt.
Proof.
  unfold result. rewrite append_spec.
  destruct (_ <? callQueue this); [reflexivity|].
  destruct (_ && _); reflexivity.
Qed.

Lemma after_append (s : Stage) (value : string) (this : Builder) :
  after (append s value) this =
    if ordinal s <? callQueue this then this
    else if singleton s && (0 <? counter s this) then entered s this
    else set_values (values this ++ decorated s value) (entered s this).
Proof.
  unfold after. rewrite append_spec.
  destruct (_ <? callQueue this); [reflexivity|].
  destruct (_ && _); reflexivity.
Qed.

Lemma callQueue_entered (s : Stage) (this : Builder) :
  callQueue (entered s this) = ordinal s.
Proof. destruct s; reflexivity. Qed.

Lemma values_entered (s : Stage) (this : Builder) :
  values (entered s this) = values this.
Proof. destruct s; reflexivity. Qed.

Lemma counter_entered (s t : Stage) (this : Builder) :
  counter t (entered s this) =
    if singleton s && (if Stage_eq_dec s t then true else false)
    then counter t this + 1 else counter t this.
Proof. destruct s, t; reflexivity. Qed.

(* ------------------------------------------------------------------ *)
(** ** Rectangle *)

Lemma SFmul_comm (prec emax : Z) (x y : spec_float) :
  SFmul prec emax x y = SFmul prec emax y x.
Proof.
  destruct x as [sx|sx| |sx mx ex], y as [sy|sy| |sy my ey]; cbn [SFmul];
    try reflexivity; try (rewrite (xorb_comm sx sy); reflexivity).
  rewrite (xorb_comm sx sy), (Pos.mul_comm mx my), (Z.add_comm ex ey).
  reflexivity.
Qed.

Lemma float_mul_comm (x y : float) : (x * y)%float = (y * x)%float.
Proof.
  apply Prim2SF_inj. rewrite !mul_spec. apply SFmul_comm.
Qed.

(** C8. For all numbers [w] and [h], [Rectangle(w, h)] is an object whose
    [width] is [w], whose [height] is [h] and whose [getArea()] returns
    [w * h]. *)
Theorem Rectangle_fields_and_area (w h : float) :
  let r := RectangleTask.Rectangle w h in
  RectangleTask.width r = w
  /\ RectangleTask.height r = h
  /\ RectangleTask.getArea r tt = (w * h)%float.
Proof.
  cbn. repeat split. apply float_mul_comm.
Qed.

Example Rectangle_10_20 :
  let r := RectangleTask.Rectangle 10 20 in
  RectangleTask.width r = 10%float /\ RectangleTask.height r = 20%float
  /\ RectangleTask.getArea r tt = 200%float.
Proof. repeat split. Qed.

(* ------------------------------------------------------------------ *)
(** ** The ordering check *)

(** C2. An append throws the ordering error exactly when the ordinal of
    its stage is strictly below the last stage applied ([callQueue]); a
    stage whose ordinal is at least that passes the check, which then
    records it.  [class] after [attr] always throws the ordering error,
    and [class] after [class] never throws. *)
Theorem ordering_error_iff (this : Builder) (s : Stage) (value : string) :
  (result (append s value) this = Throw OrderingError
     <-> ordinal s < callQueue this)
  /\ (Builder.checkQueue (ordinal s) this
        = (Return tt, set_callQueue (ordinal s) this)
     <-> callQueue this <= ordinal s)
  /\ (forall w : string,
        result (Builder.class w) (after (Builder.attr value) this)
          = Throw OrderingError)
  /\ (forall w : string,
        result (Builder.class w) (cssSelectorBuilder.attr value)
          = Throw OrderingError)
  /\ (forall w : string,
        result (Builder.class value) this = Return tt ->
        result (Builder.class w) (after (Builder.class value) this)
          = Return tt)
  /\ (forall w : string,
        result (Builder.class w) (cssSelectorBuilder.class value) = Return tt).
Proof.
  split; [|split; [|split; [|split; [|split]]]].
  - rewrite result_append.
    destruct (N.ltb_spec (ordinal s) (callQueue this)) as [Hlt|Hge].
    + split; [intros _; exact Hlt | reflexivity].
    + split; [|lia].
      destruct (_ && _); intro H; [|discriminate H].
      destruct (cardinality_is_not_ordering H).
  - rewrite checkQueue_spec.
    destruct (N.ltb_spec (ordinal s) (callQueue this)) as [Hlt|Hge].
    + split; [discriminate | lia].
    + split; [intros _; exact Hge | reflexivity].
  - intro w.
    change (Builder.class w) with (append ClassStage w).
    change (Builder.attr value) with (append AttributeStage value).
    rewrite result_append, after_append. cbn [singleton andb ordinal].
    destruct (N.ltb_spec 4 (callQueue this)) as [Hlt|Hge].
    + destruct (N.ltb_spec 3 (callQueue this)); [reflexivity | lia].
    + reflexivity.
  - reflexivity.
  - intros w.
    change (Builder.class w) with (append ClassStage w).
    change (Builder.class value) with (append ClassStage value).
    rewrite !result_append, after_append. cbn [singleton andb ordinal].
    destruct (3 <? callQueue this); [discriminate | reflexivity].
  - reflexivity.
Qed.

Lemma ordering_error_iff_witness :
  result (Builder.class "editable")
         (after (Builder.class "container") (cssSelectorBuilder.id "main"))
    = Return tt.
Proof.
  apply (proj1 (proj2 (proj2 (proj2 (proj2
           (ordering_error_iff (cssSelectorBuilder.id "main")
                               ClassStage "container")))))).
  reflexivity.
Defined.

(* ------------------------------------------------------------------ *)
(** ** [stringify] on an accumulator *)

Lemma stringify_spec (this : Builder) :
  Builder.stringify this = (Return (values this), this).
Proof. reflexivity. Qed.

Lemma bind_after_stringify {A} (m : M A) (this : Builder) :
  (Builder.stringify ;; m) this = m this.
Proof. unfold bind. rewrite stringify_spec. reflexivity. Qed.

(** C10. [stringify()] never throws, changes no field of the accumulator
    and returns its text; read twice in a row it returns the same string,
    and any append, or chain of appends, behaves after a [stringify()] as
    it would have without it. *)
Theorem stringify_reads_only (this : Builder) :
  result Builder.stringify this = Return (values this)
  /\ after Builder.stringify this = this
  /\ result Builder.stringify (after Builder.stringify this)
       = result Builder.stringify this
  /\ (forall (s : Stage) (value : string),
        (Builder.stringify ;; append s value) this = append s value this)
  /\ (forall calls : list Call,
        (Builder.stringify ;; chain calls) this = chain calls this).
Proof.
  repeat split; intros; apply bind_after_stringify.
Qed.

(* ------------------------------------------------------------------ *)
(** ** [element] after [element(..).id(..)] *)

(** C4, as the specification has it, fails: after [element('div').id('main')]
    and a [stringify()], [.element('span')] throws the ordering error, not
    the cardinality error. *)
Lemma element_again_not_cardinality :
  let chained :=
    Builder.id "main" ;; Builder.stringify ;; Builder.element "span" in
  result chained (cssSelectorBuilder.element "div") = Throw OrderingError
  /\ result chained (cssSelectorBuilder.element "div")
       <> Throw CardinalityError.
Proof.
  split; [reflexivity|].
  intro H. apply (@cardinality_is_not_ordering unit). symmetry. exact H.
Qed.

(** C4, amended. On the accumulator built by [element(d).id(m)], after
    [stringify()] has been read, [.element(x)] throws the ordering error:
    the ordering check runs first and the last stage is [id].  The
    accumulator is left as it was, with text [d#m]. *)
Theorem element_again_ordering_error (d m x : string) :
  let built := after (Builder.id m) (cssSelectorBuilder.element d) in
  result (Builder.id m) (cssSelectorBuilder.element d) = Return tt
  /\ result Builder.stringify built = Return (d ++ "#" ++ m)
  /\ result (Builder.stringify ;; Builder.element x) built
       = Throw OrderingError
  /\ after (Builder.stringify ;; Builder.element x) built = built.
Proof. repeat split. Qed.

(* ------------------------------------------------------------------ *)
(** ** Calls made one after the other on one accumulator *)

Lemma callQueue_after_append (s : Stage) (value : string) (this : Builder) :
  callQueue (after (append s value) this) = N.max (callQueue this) (ordinal s).
Proof.
  rewrite after_append.
  destruct (N.ltb_spec (ordinal s) (callQueue this)) as [Hlt|Hge].
  - lia.
  - assert (Hq : callQueue (entered s this) = ordinal s)
      by apply callQueue_entered.
    destruct (_ && _); cbn [callQueue set_values]; lia.
Qed.

Lemma ids_after_append (s : Stage) (value : string) (this : Builder) :
  ids this <= ids (after (append s value) this).
Proof.
  rewrite after_append.
  destruct (_ <? callQueue this); [lia|].
  destruct (_ && _); destruct s; cbn; lia.
Qed.

Lemma ids_perform (calls : list Call) (this : Builder) :
  ids this <= ids (perform calls this).
Proof.
  revert this. induction calls as [|[s value] rest IH]; intro this; cbn.
  - lia.
  - specialize (IH (after (append s value) this)).
    pose proof (ids_after_append s value this). lia.
Qed.

Lemma callQueue_perform (queue : N) (calls : list Call) (this : Builder) :
  (queue <? callQueue (perform calls this)) =
    (queue <? callQueue this) || reaches_beyond queue calls.
Proof.
  revert this. induction calls as [|[s value] rest IH]; intro this; cbn.
  - now rewrite orb_false_r.
  - rewrite IH, callQueue_after_append, orb_assoc. f_equal.
    destruct (N.ltb_spec queue (callQueue this)),
             (N.ltb_spec queue (ordinal s)),
             (N.ltb_spec queue (N.max (callQueue this) (ordinal s)));
      try reflexivity; lia.
Qed.

(** A fluent chain that returns did what the same calls do one by one. *)
Lemma chain_returns_perform (calls : list Call) (this : Builder) :
  result (chain calls) this = Return tt ->
  after (chain calls) this = perform calls this.
Proof.
  revert this. induction calls as [|[s value] rest IH]; intro this.
  - reflexivity.
  - unfold result, after in *. cbn [chain perform]. unfold bind, after.
    destruct (append s value this) as [[[]|e] this']; cbn [fst snd].
    + apply IH.
    + discriminate.
Qed.

(** The second [id] on an accumulator whose [id] counter is set. *)
Lemma id_when_counted (w : string) (this : Builder) :
  1 <= ids this ->
  result (Builder.id w) this =
    if 2 <? callQueue this then Throw OrderingError else Throw CardinalityError.
Proof.
  intro H. change (Builder.id w) with (append IdStage w).
  rewrite result_append. cbn [ordinal singleton counter andb].
  destruct (2 <? callQueue this); [reflexivity|].
  destruct (N.ltb_spec 0 (ids this)); [reflexivity | lia].
Qed.

(* ------------------------------------------------------------------ *)
(** ** [id] called twice *)

(** C3, as the specification has it, fails: in [id('main').class('container')]
    a second [.id('other')] throws the ordering error, not the cardinality
    error. *)
Lemma id_class_id_not_cardinality :
  let chained := Builder.class "container" ;; Builder.id "other" in
  result (Builder.class "container") (cssSelectorBuilder.id "main") = Return tt
  /\ result chained (cssSelectorBuilder.id "main") = Throw OrderingError
  /\ result chained (cssSelectorBuilder.id "main") <> Throw CardinalityError.
Proof.
  split; [reflexivity|]. split; [reflexivity|].
  intro H. apply (@cardinality_is_not_ordering unit). symmetry. exact H.
Qed.

(** C3, amended. After an [id] call that returned, or a start at
    [cssSelectorBuilder.id], a second [id] call on that accumulator always
    throws, whatever calls were made in between (each either returning or
    throwing and being caught).  It throws the cardinality error when every
    call in between was [element] or [id], in particular when there is
    none; it throws the ordering error as soon as one of them was [class],
    [attr], [pseudoClass] or [pseudoElement].  In a fluent chain the chain
    as a whole therefore never returns. *)
Theorem second_id_throws (this : Builder) (v w : string) (between : list Call) :
  let verdict :=
    if reaches_beyond 2 between
    then Throw OrderingError else Throw CardinalityError in
  (result (Builder.id v) this = Return tt ->
     result (Builder.id w) (perform between (after (Builder.id v) this))
       = verdict)
  /\ result (Builder.id w) (perform between (cssSelectorBuilder.id v)) = verdict
  /\ (result (Builder.id v) this = Return tt ->
      result (chain between ;; Builder.id w) (after (Builder.id v) this)
        <> Return tt)
  /\ result (chain between ;; Builder.id w) (cssSelectorBuilder.id v)
       <> Return tt.
Proof.
  assert (Hgen : forall b1 : Builder,
             1 <= ids b1 -> callQueue b1 = 2 ->
             result (Builder.id w) (perform between b1)
               = (if reaches_beyond 2 between
                  then Throw OrderingError else Throw CardinalityError)
             /\ result (chain between ;; Builder.id w) b1 <> Return tt).
  { intros b1 Hids Hq. split.
    - rewrite id_when_counted by (pose proof (ids_perform between b1); lia).
      rewrite callQueue_perform, Hq. reflexivity.
    - unfold result, bind.
      destruct (chain between b1) as [[[]|e] b2] eqn:Hchain; [|discriminate].
      assert (Hb2 : b2 = perform between b1).
      { change b2 with (snd (Return tt, b2)). rewrite <- Hchain.
        apply chain_returns_perform. unfold result. now rewrite Hchain. }
      fold (result (Builder.id w) b2).
      rewrite id_when_counted
        by (subst b2; pose proof (ids_perform between b1); lia).
      destruct (2 <? callQueue b2); discriminate. }
  assert (Hfirst : result (Builder.id v) this = Return tt ->
                   1 <= ids (after (Builder.id v) this)
                   /\ callQueue (after (Builder.id v) this) = 2).
  { change (Builder.id v) with (append IdStage v).
    rewrite result_append, after_append. cbn [ordinal singleton counter andb].
    destruct (2 <? callQueue this); [discriminate|].
    destruct (0 <? ids this); [discriminate|].
    intros _. cbn. split; [lia | reflexivity]. }
  assert (Hstart : 1 <= ids (cssSelectorBuilder.id v)
                   /\ callQueue (cssSelectorBuilder.id v) = 2)
    by (cbn; split; [lia | reflexivity]).
  cbv zeta. repeat apply conj.
  - intro H. apply Hgen; apply Hfirst, H.
  - apply Hgen; apply Hstart.
  - intro H. apply Hgen; apply Hfirst, H.
  - apply Hgen; apply Hstart.
Qed.

Lemma second_id_throws_witness :
  result (Builder.id "other")
         (perform [(ElementStage, "p")]
                  (after (Builder.id "main") (cssSelectorBuilder.element "div")))
    = Throw CardinalityError.
Proof.
  apply (proj1 (second_id_throws (cssSelectorBuilder.element "div")
                                 "main" "other" [(ElementStage, "p")])).
  reflexivity.
Defined.

(* ------------------------------------------------------------------ *)
(** ** The counters *)

Lemma counters_bounded_counter (this : Builder) :
  counters_bounded this <-> forall s : Stage, counter s this <= 1.
Proof.
  unfold counters_bounded. split.
  - intros (He & Hi & Hp) s. destruct s; cbn; lia.
  - intro H. pose proof (H ElementStage). pose proof (H IdStage).
    pose proof (H PseudoElementStage). cbn in *. lia.
Qed.

Lemma counter_set_values (s : Stage) (text : string) (this : Builder) :
  counter s (set_values text this) = counter s this.
Proof. destruct s; reflexivity. Qed.

Lemma counter_after_append (t s : Stage) (value : string) (this : Builder) :
  counter t this <= counter t (after (append s value) this).
Proof.
  rewrite after_append.
  destruct (_ <? callQueue this); [lia|].
  destruct (singleton s && (0 <? counter s this));
    rewrite ?counter_set_values, counter_entered;
    destruct (singleton s && _); lia.
Qed.

Lemma counter_perform (t : Stage) (calls : list Call) (this : Builder) :
  counter t this <= counter t (perform calls this).
Proof.
  revert this. induction calls as [|[s value] rest IH]; intro this; cbn.
  - lia.
  - specialize (IH (after (append s value) this)).
    pose proof (counter_after_append t s value this). lia.
Qed.

(** One append keeps the bound unless it throws the cardinality error. *)
Lemma counters_bounded_step (this : Builder) (s : Stage) (value : string) :
  counters_bounded this ->
  result (append s value) this <> Throw CardinalityError ->
  counters_bounded (after (append s value) this).
Proof.
  intros Hb. rewrite result_append, after_append.
  destruct (_ <? callQueue this); [intros _; exact Hb|].
  destruct (singleton s && (0 <? counter s this)) eqn:Hc;
    [intro H; now destruct H|]. intros _.
  apply counters_bounded_counter. intro t.
  rewrite counter_set_values, counter_entered.
  pose proof (proj1 (counters_bounded_counter this) Hb t) as Ht.
  destruct (singleton s); cbn [andb] in *; [|exact Ht].
  destruct (Stage_eq_dec s t) as [->|]; [|exact Ht].
  destruct (N.ltb_spec 0 (counter t this)); [discriminate | lia].
Qed.

(** An append that throws the cardinality error on a bounded accumulator
    leaves the counter of its stage at 2. *)
Lemma cardinality_error_counter (this : Builder) (s : Stage) (value : string) :
  counters_bounded this ->
  result (append s value) this = Throw CardinalityError ->
  singleton s = true /\ counter s this = 1
  /\ counter s (after (append s value) this) = 2.
Proof.
  intros Hb. rewrite result_append, after_append.
  destruct (_ <? callQueue this).
  { intro H. symmetry in H. destruct (cardinality_is_not_ordering H). }
  destruct (singleton s) eqn:Hs; cbn [andb]; [|discriminate].
  pose proof (proj1 (counters_bounded_counter this) Hb s) as Hle.
  destruct (N.ltb_spec 0 (counter s this)); [|discriminate]. intros _.
  assert (Hc : counter s this = 1) by lia.
  rewrite counter_entered, Hs, Hc.
  destruct (Stage_eq_dec s s); [auto | contradiction].
Qed.

(** Over the calls made on a bounded accumulator, the bound is lost
    exactly by a cardinality error. *)
Lemma counters_bounded_perform (calls : list Call) (this : Builder) :
  counters_bounded this ->
  counters_bounded (perform calls this)
  <-> ~ In (Throw CardinalityError) (outcomes calls this).
Proof.
  revert this. induction calls as [|[s value] rest IH]; intros this Hb.
  - cbn. split; [intros _ [] | intros _; exact Hb].
  - cbn [perform outcomes In].
    assert (Hcases : result (append s value) this = Throw CardinalityError
                     \/ result (append s value) this <> Throw CardinalityError).
    { rewrite result_append.
      destruct (_ <? callQueue this);
        [right; intro H; symmetry in H; exact (cardinality_is_not_ordering H)|].
      destruct (_ && _); [left; reflexivity | right; discriminate]. }
    destruct Hcases as [Hcard | Hother].
    + split; [|intro H; destruct H; left; exact Hcard].
      intro Hbounded. exfalso.
      destruct (cardinality_error_counter this s value Hb Hcard) as (_ & _ & Htwo).
      pose proof (counter_perform s rest (after (append s value) this)) as Hmono.
      pose proof (proj1 (counters_bounded_counter _) Hbounded s) as Hle.
      lia.
    + rewrite (IH _ (counters_bounded_step this s value Hb Hother)).
      split.
      * intros Hn [Hhead | Htail]; [exact (Hother Hhead) | exact (Hn Htail)].
      * intros Hn Htail. apply Hn. right. exact Htail.
Qed.

(** C7, as the specification has it, fails: a second [element] throws the
    cardinality error and leaves [elements] at 2. *)
Lemma element_twice_counter_exceeds :
  let this := cssSelectorBuilder.element "div" in
  result (Builder.element "span") this = Throw CardinalityError
  /\ elements (after (Builder.element "span") this) = 2
  /\ ~ counters_bounded (after (Builder.element "span") this).
Proof.
  split; [reflexivity|]. split; [reflexivity|].
  unfold counters_bounded. cbn. lia.
Qed.

(** C7, amended. On an accumulator created by the facade, at every point
    of its life (after construction and after every append, whether it
    returned or threw and was caught), the three counters are at most 1
    exactly as long as no append on it has thrown the cardinality error.
    So the bound is kept by every append that returns or throws the
    ordering error on an accumulator on which it held before, and it holds
    at the end of every fluent chain that returns.  An append of
    [element], [id] or [pseudoElement] that passes the ordering check
    while its counter is already 1 throws the cardinality error, and a
    cardinality error is the only way a counter exceeds 1: the failing
    call leaves it at 2, and from then on the bound is lost. *)
Theorem counters_bounded_until_cardinality_error :
  (forall (s : Stage) (value : string), counters_bounded (start s value))
  /\ (forall (this : Builder) (s : Stage) (value : string),
        counters_bounded this ->
        result (append s value) this <> Throw CardinalityError ->
        counters_bounded (after (append s value) this))
  /\ (forall (s0 : Stage) (v0 : string) (calls : list Call),
        result (chain calls) (start s0 v0) = Return tt ->
        counters_bounded (after (chain calls) (start s0 v0)))
  /\ (forall (this : Builder) (s : Stage) (value : string),
        singleton s = true ->
        callQueue this <= ordinal s ->
        counter s this = 1 ->
        result (append s value) this = Throw CardinalityError
        /\ counter s (after (append s value) this) = 2)
  /\ (forall (this : Builder) (s : Stage) (value : string),
        counters_bounded this ->
        result (append s value) this = Throw CardinalityError ->
        singleton s = true /\ counter s this = 1
        /\ counter s (after (append s value) this) = 2)
  /\ (forall (s0 : Stage) (v0 : string) (calls : list Call),
        counters_bounded (perform calls (start s0 v0))
        <-> ~ In (Throw CardinalityError) (outcomes calls (start s0 v0))).
Proof.
  assert (Hstart : forall s value, counters_bounded (start s value))
    by (intros s value; unfold counters_bounded; destruct s; cbn; lia).
  repeat apply conj.
  - exact Hstart.
  - exact counters_bounded_step.
  - intros s0 v0 calls. generalize (Hstart s0 v0). generalize (start s0 v0).
    induction calls as [|[s value] rest IH]; intros this Hb.
    + intros _. exact Hb.
    + unfold result, after. cbn [chain]. unfold bind.
      pose proof (counters_bounded_step this s value Hb) as Hs.
      unfold result, after in Hs.
      destruct (append s value this) as [[[]|e] this']; cbn [fst snd] in *.
      * intro H. apply IH; [apply Hs; discriminate | exact H].
      * discriminate.
  - intros this s value Hs Hq Hc.
    rewrite result_append, after_append, Hs, Hc.
    destruct (N.ltb_spec (ordinal s) (callQueue this)); [lia|].
    cbn [andb N.ltb N.compare]. split; [reflexivity|].
    rewrite counter_entered, Hs, Hc.
    destruct (Stage_eq_dec s s); [reflexivity | contradiction].
  - exact cardinality_error_counter.
  - intros s0 v0 calls. apply counters_bounded_perform, Hstart.
Qed.

Lemma counters_bounded_until_cardinality_error_witness :
  counters_bounded
    (after (append ClassStage "container") (cssSelectorBuilder.id "main"))
  /\ result (append IdStage "other") (cssSelectorBuilder.id "main")
       = Throw CardinalityError
  /\ counters_bounded
       (perform [(ClassStage, "container"); (ElementStage, "div")]
                (start IdStage "main")).
Proof.
  split; [|split].
  - apply (proj1 (proj2 counters_bounded_until_cardinality_error)).
    + unfold counters_bounded. cbn. lia.
    + discriminate.
  - apply (proj1 (proj2 (proj2 (proj2 counters_bounded_until_cardinality_error)))
             (cssSelectorBuilder.id "main") IdStage "other").
    + reflexivity.
    + cbn. lia.
    + reflexivity.
  - apply (proj2 (proj2 (proj2 (proj2 (proj2
             counters_bounded_until_cardinality_error))))
             IdStage "main" [(ClassStage, "container"); (ElementStage, "div")]).
    intros [H | [H | []]].
    + discriminate H.
    + symmetry in H. exact (cardinality_is_not_ordering H).
Defined.

(* ------------------------------------------------------------------ *)
(** ** What a throwing append leaves behind *)

(** C9, as stated, fails in its last part: when a cardinality error was
    caught and the same appender is called once more, the counter is
    incremented again, to 3. *)
Lemma third_element_counter_is_three :
  let this := perform [(ElementStage, "span")] (cssSelectorBuilder.element "div") in
  result (Builder.element "p") this = Throw CardinalityError
  /\ elements (after (Builder.element "p") this) = 3
  /\ elements (after (Builder.element "p") this) <> 2.
Proof. repeat split. discriminate. Qed.

(** C9, amended. An append that throws leaves the text unchanged.  If it
    throws the ordering error, no field has changed.  If it throws the
    cardinality error, the stage is a singleton stage that passed the
    ordering check and had been counted before: [callQueue] is already
    the failing stage, the counter of that stage has been incremented and
    exceeds 1, and the other counters are unchanged.  The increment is by
    exactly one wherever [+= 1] is exact on a JavaScript number, that is
    for a counter below 2^53; the counter is exactly 2 when it was at
    most 1 before the call.  These are the only two errors. *)
Theorem throwing_append_frame
    (this : Builder) (s : Stage) (value : string) (e : exn) :
  result (append s value) this = Throw e ->
  let this' := after (append s value) this in
  values this' = values this
  /\ ((e = OrderingError /\ ordinal s < callQueue this /\ this' = this)
      \/ (e = CardinalityError
          /\ singleton s = true
          /\ callQueue this <= ordinal s
          /\ callQueue this' = ordinal s
          /\ 1 <= counter s this
          /\ 1 < counter s this'
          /\ (counter s this < exact_increment_limit ->
              counter s this' = counter s this + 1)
          /\ (counter s this <= 1 -> counter s this' = 2)
          /\ (forall t : Stage, t <> s -> counter t this' = counter t this))).
Proof.
  rewrite result_append, after_append.
  destruct (N.ltb_spec (ordinal s) (callQueue this)) as [Hlt|Hge].
  - intro H. apply Throw_inj in H. subst e. cbv zeta. auto.
  - destruct (singleton s) eqn:Hs; cbn [andb]; [|discriminate].
    destruct (N.ltb_spec 0 (counter s this)) as [Hpos|]; [|discriminate].
    intro H. apply Throw_inj in H. subst e. cbv zeta.
    split; [apply values_entered|]. right.
    assert (Hc : counter s (entered s this) = counter s this + 1).
    { rewrite counter_entered, Hs.
      destruct (Stage_eq_dec s s); [reflexivity | contradiction]. }
    repeat apply conj; try reflexivity; try assumption.
    + apply callQueue_entered.
    + lia.
    + lia.
    + intros _. exact Hc.
    + lia.
    + intros t Hne. rewrite counter_entered.
      destruct (Stage_eq_dec s t) as [->|]; [contradiction|].
      now rewrite andb_false_r.
Qed.

Lemma throwing_append_frame_witness :
  let this := cssSelectorBuilder.pseudoElement "after" in
  let this' := after (append PseudoElementStage "before") this in
  values this' = "::after"
  /\ callQueue this' = 6
  /\ pseudoElements this' = 2
  /\ pseudoElements this' = pseudoElements this + 1.
Proof.
  cbv zeta.
  destruct (throwing_append_frame
              (cssSelectorBuilder.pseudoElement "after")
              PseudoElementStage "before" CardinalityError eq_refl)
    as [Hv [[He _] | (_ & _ & _ & Hq & _ & _ & Hone & Htwo & _)]].
  - destruct (errors_differ (eq_sym He)).
  - split; [exact Hv|]. split; [exact Hq|]. split.
    + apply Htwo. cbn. lia.
    + apply Hone. reflexivity.
Defined.

(* ------------------------------------------------------------------ *)
(** ** Chains in grammar order *)

Lemma append_empty_r (x : string) : x ++ "" = x.
Proof. induction x as [|a x IH]; cbn; [reflexivity | now rewrite IH]. Qed.

Lemma append_assoc (x y z : string) : (x ++ y) ++ z = x ++ y ++ z.
Proof. induction x as [|a x IH]; cbn; [reflexivity | now rewrite IH]. Qed.

Lemma occurrences_cons (t s : Stage) (value : string) (rest : list Call) :
  occurrences t ((s, value) :: rest) =
    ((if Stage_eq_dec s t then 1 else 0) + occurrences t rest)%nat.
Proof.
  unfold occurrences. cbn [map fst count_occ].
  destruct (Stage_eq_dec s t); reflexivity.
Qed.

Lemma continues_step (this : Builder) (s : Stage) (value : string)
    (rest : list Call) :
  continues this ((s, value) :: rest) ->
  append s value this
    = (Return tt, set_values (values this ++ decorated s value) (entered s this))
  /\ continues
       (set_values (values this ++ decorated s value) (entered s this)) rest.
Proof.
  intros (Hsorted & Hhead & Hcount).
  cbn [not_before fst] in Hhead.
  apply Sorted_inv in Hsorted as [Hsorted Hnext].
  assert (Hfree : singleton s && (0 <? counter s this) = false).
  { destruct (singleton s) eqn:Hs; [|reflexivity]. cbn [andb].
    specialize (Hcount s Hs). rewrite occurrences_cons in Hcount.
    destruct (Stage_eq_dec s s); [|contradiction].
    destruct (N.ltb_spec 0 (counter s this)); [lia | reflexivity]. }
  split.
  - rewrite append_spec, Hfree.
    destruct (N.ltb_spec (ordinal s) (callQueue this)); [lia | reflexivity].
  - split; [exact Hsorted|]. split.
    + cbn [callQueue set_values]. rewrite callQueue_entered.
      destruct Hnext as [|c rest' Hc]; [exact I | exact Hc].
    + intros t Ht. specialize (Hcount t Ht).
      rewrite occurrences_cons in Hcount.
      rewrite counter_set_values, counter_entered.
      destruct (Stage_eq_dec s t) as [->|].
      * rewrite Ht. cbn [andb]. lia.
      * rewrite andb_false_r. lia.
Qed.

Lemma chain_continues (calls : list Call) (this : Builder) :
  continues this calls ->
  exists this' : Builder,
    chain calls this = (Return tt, this')
    /\ values this' = values this ++ rendered calls.
Proof.
  revert this. induction calls as [|[s value] rest IH]; intros this H.
  - exists this. split; [reflexivity|]. cbn [rendered].
    now rewrite append_empty_r.
  - apply continues_step in H as [Hstep Hrest].
    destruct (IH _ Hrest) as (this' & Hchain & Hvalues).
    exists this'. split.
    + cbn [chain]. unfold bind. rewrite Hstep. exact Hchain.
    + rewrite Hvalues. cbn [values set_values rendered].
      apply append_assoc.
Qed.

Lemma start_continues (s0 : Stage) (v0 : string) (rest : list Call) :
  in_grammar_order ((s0, v0) :: rest) ->
  singletons_once ((s0, v0) :: rest) ->
  values (start s0 v0) = decorated s0 v0 /\ continues (start s0 v0) rest.
Proof.
  intros Hsorted Honce. split; [destruct s0; reflexivity|].
  apply Sorted_inv in Hsorted as [Hsorted Hnext].
  split; [exact Hsorted|]. split.
  - replace (callQueue (start s0 v0)) with (ordinal s0)
      by (destruct s0; reflexivity).
    destruct Hnext as [|c rest' Hc]; [exact I | exact Hc].
  - intros t Ht. specialize (Honce t Ht). rewrite occurrences_cons in Honce.
    destruct (Stage_eq_dec s0 t) as [<-|Hne].
    + replace (counter s0 (start s0 v0)) with 1
        by (destruct s0; try discriminate Ht; reflexivity).
      lia.
    + replace (counter t (start s0 v0)) with 0; [lia|].
      destruct s0, t; try reflexivity; contradiction.
Qed.

Lemma in_grammar_order_firstn (n : nat) (calls : list Call) :
  in_grammar_order calls -> in_grammar_order (firstn n calls).
Proof.
  unfold in_grammar_order. revert n.
  induction calls as [|c rest IH]; intros n H.
  - destruct n; exact H.
  - destruct n as [|n]; [constructor|]. cbn [firstn].
    apply Sorted_inv in H as [Hs Hh]. constructor; [apply IH, Hs|].
    destruct Hh as [|d rest' Hd]; [destruct n; constructor|].
    destruct n; constructor. exact Hd.
Qed.

Lemma occurrences_firstn (s : Stage) (n : nat) (calls : list Call) :
  (occurrences s (firstn n calls) <= occurrences s calls)%nat.
Proof.
  revert n. induction calls as [|[t value] rest IH]; intro n.
  - destruct n; cbn; lia.
  - destruct n as [|n]; [cbn; lia|]. cbn [firstn].
    rewrite !occurrences_cons. specialize (IH n). lia.
Qed.

(** C1. A selector is started at the facade at any stage and continued by
    chained appends.  If the calls respect the grammar order and each of
    [element], [id] and [pseudoElement] is used at most once, the chain
    returns and [stringify()] is the concatenation, in call order, of the
    decorated values; the same holds after every prefix of the chain. *)
Theorem stringify_of_valid_chain (s0 : Stage) (v0 : string) (rest : list Call) :
  in_grammar_order ((s0, v0) :: rest) ->
  singletons_once ((s0, v0) :: rest) ->
  result (chain rest ;; Builder.stringify) (start s0 v0)
    = Return (rendered ((s0, v0) :: rest))
  /\ forall n : nat,
       result (chain (firstn n rest) ;; Builder.stringify) (start s0 v0)
         = Return (rendered ((s0, v0) :: firstn n rest)).
Proof.
  intros Hsorted Honce.
  assert (Hprefix : forall calls,
             in_grammar_order ((s0, v0) :: calls) ->
             singletons_once ((s0, v0) :: calls) ->
             result (chain calls ;; Builder.stringify) (start s0 v0)
               = Return (rendered ((s0, v0) :: calls))).
  { intros calls Hs Ho.
    destruct (start_continues s0 v0 calls Hs Ho) as [Hv Hc].
    destruct (chain_continues calls _ Hc) as (this' & Hchain & Hvalues).
    unfold result, bind. rewrite Hchain, stringify_spec. cbn [fst rendered].
    now rewrite Hvalues, Hv. }
  split; [apply Hprefix; assumption|].
  intro n. apply Hprefix.
  - exact (in_grammar_order_firstn (S n) _ Hsorted).
  - intros s Hs. specialize (Honce s Hs).
    pose proof (occurrences_firstn s (S n) ((s0, v0) :: rest)) as Hle.
    cbn [firstn] in Hle. exact (Nat.le_trans _ _ _ Hle Honce).
Qed.

Lemma stringify_of_valid_chain_witness :
  result (chain [(IdStage, "main"); (ClassStage, "container");
                 (ClassStage, "editable"); (AttributeStage, "hidden");
                 (PseudoClassStage, "hover"); (PseudoElementStage, "after")]
          ;; Builder.stringify)
         (start ElementStage "div")
    = Return "div#main.container.editable[hidden]:hover::after".
Proof.
  apply (stringify_of_valid_chain ElementStage "div"
           [(IdStage, "main"); (ClassStage, "container");
            (ClassStage, "editable"); (AttributeStage, "hidden");
            (PseudoClassStage, "hover"); (PseudoElementStage, "after")]).
  - unfold in_grammar_order.
    repeat (constructor; cbn [fst ordinal]; try lia).
  - intros s Hs. destruct s; try discriminate Hs; vm_compute; lia.
Defined.

(* ------------------------------------------------------------------ *)
(** ** [combine] *)

Lemma stringify_returns (s : Selector) :
  exists text : string, stringify s = Return text.
Proof.
  induction s as [b | s1 [t1 IH1] c s2 [t2 IH2]].
  - exists (values b). reflexivity.
  - cbn [stringify]. rewrite IH1, IH2. eexists. reflexivity.
Qed.

(** C5. For selectors [a] and [b] that stringify to [sa] and [sb], and any
    token [t], [combine(a, t, b).stringify()] is [sa + ' ' + t + ' ' + sb];
    nested on the left with a second token [u] and a selector [c] that
    stringifies to [sc] it is [sa + ' ' + t + ' ' + sb + ' ' + u + ' ' + sc],
    and likewise nested on the right. *)
Theorem combine_stringify (a b : Selector) (t : string) (sa sb : string) :
  stringify a = Return sa ->
  stringify b = Return sb ->
  stringify (cssSelectorBuilder.combine a t b)
    = Return (sa ++ " " ++ t ++ " " ++ sb)
  /\ forall (c : Selector) (u sc : string),
       stringify c = Return sc ->
       stringify (cssSelectorBuilder.combine
                    (cssSelectorBuilder.combine a t b) u c)
         = Return (sa ++ " " ++ t ++ " " ++ sb ++ " " ++ u ++ " " ++ sc)
       /\ stringify (cssSelectorBuilder.combine
                       c u (cssSelectorBuilder.combine a t b))
            = Return (sc ++ " " ++ u ++ " " ++ sa ++ " " ++ t ++ " " ++ sb).
Proof.
  intros Ha Hb. unfold cssSelectorBuilder.combine. cbn [stringify].
  rewrite Ha, Hb. split; [reflexivity|].
  intros c u sc Hc. rewrite Hc. split; [|reflexivity].
  f_equal. rewrite !append_assoc. reflexivity.
Qed.

Lemma combine_stringify_witness :
  stringify
    (cssSelectorBuilder.combine
       (cssSelectorBuilder.combine
          (Simple (cssSelectorBuilder.element "div")) ">"
          (Simple (cssSelectorBuilder.element "p")))
       "~"
       (Simple (cssSelectorBuilder.class "note")))
    = Return "div > p ~ .note".
Proof.
  apply (proj2 (combine_stringify
                  (Simple (cssSelectorBuilder.element "div"))
                  (Simple (cssSelectorBuilder.element "p"))
                  ">" "div" "p" eq_refl eq_refl)
               (Simple (cssSelectorBuilder.class "note")) "~" ".note" eq_refl).
Defined.

(** C6. [combine] is a function of any two selectors and any token: it
    makes no check and has no way to throw.  The [stringify()] of its
    result returns for every token, with the token, whatever string it is,
    set between two single spaces and the texts of the operands around
    it; in particular the operands, combined or not, never throw. *)
Theorem combine_never_throws (a b : Selector) (t : string) :
  exists sa sb : string,
    stringify a = Return sa
    /\ stringify b = Return sb
    /\ stringify (cssSelectorBuilder.combine a t b)
         = Return (sa ++ " " ++ t ++ " " ++ sb).
Proof.
  destruct (stringify_returns a) as [sa Ha], (stringify_returns b) as [sb Hb].
  exists sa, sb. unfold cssSelectorBuilder.combine. cbn [stringify].
  rewrite Ha, Hb. repeat split.
Qed.

Example combine_div_plus_span :
  stringify (cssSelectorBuilder.combine
               (Simple (cssSelectorBuilder.element "div")) "+"
               (Simple (cssSelectorBuilder.element "span")))
    = Return "div + span".
Proof. reflexivity. Qed.

Example combine_any_token :
  stringify (cssSelectorBuilder.combine
               (Simple (cssSelectorBuilder.element "a")) "not a combinator"
               (Simple (cssSelectorBuilder.element "b")))
    = Return "a not a combinator b".
Proof. reflexivity. Qed.


(* ------------------------------------------------------------------ *)
(** ** Chains that return are exactly the chains in grammar order *)

(** An append that returns passed both checks. *)
Lemma append_returns_inv (s : Stage) (value : string) (this : Builder) :
  result (append s value) this = Return tt ->
  callQueue this <= ordinal s
  /\ (singleton s = true -> counter s this = 0)
  /\ after (append s value) this
       = set_values (values this ++ decorated s value) (entered s this).
Proof.
  rewrite result_append, after_append.
  destruct (N.ltb_spec (ordinal s) (callQueue this)); [discriminate|].
  destruct (singleton s); cbn [andb].
  - destruct (N.ltb_spec 0 (counter s this)); [discriminate|].
    intros _. repeat split; [assumption | intros _; lia].
  - intros _. repeat split; [assumption | discriminate].
Qed.

Lemma chain_cons_returns (s : Stage) (value : string) (rest : list Call)
    (this : Builder) :
  result (chain ((s, value) :: rest)) this = Return tt ->
  result (append s value) this = Return tt
  /\ result (chain rest) (after (append s value) this) = Return tt.
Proof.
  unfold result, after. cbn [chain]. unfold bind.
  destruct (append s value this) as [[[]|e] this']; cbn [fst snd].
  - intro H. split; [reflexivity | exact H].
  - discriminate.
Qed.

Lemma returns_continues (calls : list Call) (this : Builder) :
  (forall s : Stage, counter s this <= 1) ->
  result (chain calls) this = Return tt ->
  continues this calls.
Proof.
  revert this. induction calls as [|[s value] rest IH]; intros this Hb Hret.
  - split; [constructor|]. split; [exact I|].
    intros t _. specialize (Hb t). cbn. lia.
  - apply chain_cons_returns in Hret as [Hs Hrest].
    apply append_returns_inv in Hs as (Hq & Hfree & Hafter).
    rewrite Hafter in Hrest.
    assert (Hcount : forall t,
               counter t (set_values (values this ++ decorated s value)
                                     (entered s this))
                 = counter t this
                   + (if singleton s && (if Stage_eq_dec s t then true else false)
                      then 1 else 0)).
    { intro t. rewrite counter_set_values, counter_entered.
      destruct (singleton s && _); lia. }
    assert (Hb' : forall t,
               counter t (set_values (values this ++ decorated s value)
                                     (entered s this)) <= 1).
    { intro t. rewrite Hcount. specialize (Hb t).
      destruct (singleton s) eqn:Hsing; cbn [andb]; [|lia].
      destruct (Stage_eq_dec s t) as [<-|]; [|lia].
      rewrite (Hfree eq_refl). lia. }
    destruct (IH _ Hb' Hrest) as (Hsorted & Hhead & Hocc).
    cbn [callQueue set_values] in Hhead. rewrite callQueue_entered in Hhead.
    split; [|split].
    + constructor; [exact Hsorted|].
      destruct rest as [|c rest']; constructor. exact Hhead.
    + exact Hq.
    + intros t Ht. specialize (Hocc t Ht). rewrite Hcount in Hocc.
      rewrite occurrences_cons.
      destruct (Stage_eq_dec s t) as [<-|].
      * rewrite Ht in Hocc. cbn [andb] in Hocc. lia.
      * rewrite andb_false_r in Hocc. lia.
Qed.

Lemma start_counters (s0 t : Stage) (v0 : string) :
  counter t (start s0 v0)
    = if singleton s0 && (if Stage_eq_dec s0 t then true else false)
      then 1 else 0.
Proof. destruct s0, t; reflexivity. Qed.

Lemma start_callQueue (s0 : Stage) (v0 : string) :
  callQueue (start s0 v0) = ordinal s0.
Proof. destruct s0; reflexivity. Qed.

Lemma start_values (s0 : Stage) (v0 : string) :
  values (start s0 v0) = decorated s0 v0.
Proof. destruct s0; reflexivity. Qed.

Lemma continues_start_valid (s0 : Stage) (v0 : string) (rest : list Call) :
  continues (start s0 v0) rest ->
  in_grammar_order ((s0, v0) :: rest) /\ singletons_once ((s0, v0) :: rest).
Proof.
  intros (Hsorted & Hhead & Hocc). rewrite start_callQueue in Hhead. split.
  - constructor; [exact Hsorted|].
    destruct rest as [|c rest']; constructor. exact Hhead.
  - intros t Ht. specialize (Hocc t Ht).
    rewrite start_counters in Hocc. rewrite occurrences_cons.
    destruct (Stage_eq_dec s0 t) as [<-|].
    + rewrite Ht in Hocc. cbn [andb] in Hocc. lia.
    + rewrite andb_false_r in Hocc. lia.
Qed.

Lemma start_counters_bounded (s0 t : Stage) (v0 : string) :
  counter t (start s0 v0) <= 1.
Proof. rewrite start_counters. destruct (_ && _); lia. Qed.

(** X1. A chain started at the facade and continued by appends returns if
    and only if its calls are in grammar order and [element], [id] and
    [pseudoElement] each occur at most once. *)
Theorem chain_returns_iff_valid (s0 : Stage) (v0 : string) (rest : list Call) :
  result (chain rest) (start s0 v0) = Return tt
  <-> in_grammar_order ((s0, v0) :: rest)
      /\ singletons_once ((s0, v0) :: rest).
Proof.
  split.
  - intro Hret. apply continues_start_valid, returns_continues; [|exact Hret].
    intro t. apply start_counters_bounded.
  - intros [Hsorted Honce].
    destruct (start_continues s0 v0 rest Hsorted Honce) as [_ Hc].
    destruct (chain_continues rest _ Hc) as (this' & Hchain & _).
    unfold result. now rewrite Hchain.
Qed.

(* ------------------------------------------------------------------ *)
(** ** The last stage over the life of an accumulator *)

Lemma callQueue_perform_latest (calls : list Call) (this : Builder) :
  callQueue (perform calls this) = latest (callQueue this) calls.
Proof.
  unfold latest. revert this.
  induction calls as [|[s value] rest IH]; intro this; cbn [perform fold_left].
  - reflexivity.
  - rewrite IH, callQueue_after_append. reflexivity.
Qed.

Lemma latest_ge (queue : N) (calls : list Call) : queue <= latest queue calls.
Proof.
  unfold latest. revert queue.
  induction calls as [|c rest IH]; intro queue; cbn [fold_left].
  - lia.
  - specialize (IH (N.max queue (ordinal (fst c)))). lia.
Qed.

Lemma latest_is_stage (s0 : Stage) (calls : list Call) :
  exists s : Stage,
    latest (ordinal s0) calls = ordinal s
    /\ (s = s0 \/ In s (map fst calls)).
Proof.
  unfold latest. revert s0.
  induction calls as [|[s1 value] rest IH]; intro s0; cbn [fold_left map fst].
  - exists s0. auto.
  - destruct (N.max_spec (ordinal s0) (ordinal s1)) as [[_ ->]|[_ ->]].
    + destruct (IH s1) as (s & Hs & [Heq|Hin]); exists s; cbn [In]; auto.
    + destruct (IH s0) as (s & Hs & [Heq|Hin]); exists s; cbn [In]; auto.
Qed.

(** X2. Over any sequence of calls on one accumulator, whether they
    return or throw and are caught, [callQueue] never decreases: it is
    the latest stage among the one it held and the stages of all the
    calls made, rejected ones included.  On an accumulator started at the
    facade it is therefore always the ordinal of one of the stages that
    were called, between 1 and 6. *)
Theorem callQueue_is_latest_stage (this : Builder) (calls : list Call) :
  callQueue (perform calls this) = latest (callQueue this) calls
  /\ callQueue this <= callQueue (perform calls this)
  /\ forall (s0 : Stage) (v0 : string),
       exists s : Stage,
         callQueue (perform calls (start s0 v0)) = ordinal s
         /\ (s = s0 \/ In s (map fst calls))
         /\ 1 <= callQueue (perform calls (start s0 v0)) <= 6.
Proof.
  split; [apply callQueue_perform_latest|]. split.
  - rewrite callQueue_perform_latest. apply latest_ge.
  - intros s0 v0. rewrite callQueue_perform_latest, start_callQueue.
    destruct (latest_is_stage s0 calls) as (s & Hs & Hin).
    exists s. rewrite Hs. split; [reflexivity|]. split; [exact Hin|].
    destruct s; cbn; lia.
Qed.

(* ------------------------------------------------------------------ *)
(** ** Failures are permanent *)

(** X3. Once an append at some stage has thrown on an accumulator, every
    later append at that stage throws as well, whatever calls were made
    on the accumulator in between and whatever value is passed; after an
    ordering error the later error is again the ordering error. *)
Theorem thrown_stage_stays_closed
    (this : Builder) (s : Stage) (v w : string) (e : exn)
    (between : list Call) :
  result (append s v) this = Throw e ->
  let later := perform between (after (append s v) this) in
  (result (append s w) later = Throw OrderingError
   \/ result (append s w) later = Throw CardinalityError)
  /\ (e = OrderingError -> result (append s w) later = Throw OrderingError).
Proof.
  intros Hthrow later.
  pose proof (callQueue_perform_latest between (after (append s v) this)) as Hq.
  pose proof (latest_ge (callQueue (after (append s v) this)) between) as Hge.
  pose proof (counter_perform s between (after (append s v) this)) as Hc.
  fold later in Hq, Hc. rewrite <- Hq in Hge. clear Hq.
  rewrite result_append in Hthrow. rewrite after_append in Hge, Hc.
  rewrite result_append.
  destruct (N.ltb_spec (ordinal s) (callQueue this)) as [Hlt|Hle].
  - destruct (N.ltb_spec (ordinal s) (callQueue later)); [auto | lia].
  - destruct (singleton s) eqn:Hs; cbn [andb] in *; [|discriminate].
    destruct (N.ltb_spec 0 (counter s this)) as [Hpos|]; [|discriminate].
    apply Throw_inj in Hthrow. subst e.
    rewrite counter_entered, Hs in Hc.
    destruct (Stage_eq_dec s s); [|contradiction]. cbn [andb] in Hc.
    destruct (N.ltb_spec (ordinal s) (callQueue later)).
    + split; [auto | intros _; reflexivity].
    + destruct (N.ltb_spec 0 (counter s later)); [|lia].
      split; [auto|]. intro Hbad. destruct (errors_differ (eq_sym Hbad)).
Qed.

Lemma thrown_stage_stays_closed_witness :
  result (append ClassStage "late")
         (perform [(PseudoClassStage, "hover")]
                  (after (append ClassStage "early")
                         (cssSelectorBuilder.attr "href")))
    = Throw OrderingError.
Proof.
  apply (proj2 (thrown_stage_stays_closed
                  (cssSelectorBuilder.attr "href") ClassStage "early" "late"
                  OrderingError [(PseudoClassStage, "hover")] eq_refl)).
  reflexivity.
Defined.

(* ------------------------------------------------------------------ *)
(** ** A singleton stage used twice *)

Lemma counted_stage_again (s : Stage) (w : string) (between : list Call)
    (b1 : Builder) :
  singleton s = true ->
  1 <= counter s b1 ->
  callQueue b1 = ordinal s ->
  result (append s w) (perform between b1)
    = if reaches_beyond (ordinal s) between
      then Throw OrderingError else Throw CardinalityError.
Proof.
  intros Hs Hc Hq. rewrite result_append, callQueue_perform, Hq, Hs.
  rewrite N.ltb_irrefl. cbn [orb andb].
  destruct (reaches_beyond (ordinal s) between); [reflexivity|].
  pose proof (counter_perform s between b1).
  destruct (N.ltb_spec 0 (counter s (perform between b1))); [reflexivity | lia].
Qed.

(** X4. For each of [element], [id] and [pseudoElement]: after a call of
    that appender that returned, or a start at the facade entry of that
    stage, a second call of the same appender on the accumulator throws,
    whatever calls were made in between.  It throws the ordering error
    if one of the calls in between was at a later stage, and the
    cardinality error otherwise. *)
Theorem second_singleton_call_throws
    (s : Stage) (this : Builder) (v w : string) (between : list Call) :
  singleton s = true ->
  let verdict :=
    if reaches_beyond (ordinal s) between
    then Throw OrderingError else Throw CardinalityError in
  (result (append s v) this = Return tt ->
   result (append s w) (perform between (after (append s v) this)) = verdict)
  /\ result (append s w) (perform between (start s v)) = verdict.
Proof.
  intros Hs verdict. split.
  - intro Hret. apply append_returns_inv in Hret as (_ & Hfree & ->).
    apply counted_stage_again; [exact Hs | |].
    + rewrite counter_set_values, counter_entered, Hs.
      destruct (Stage_eq_dec s s); [cbn [andb]; lia | contradiction].
    + cbn [callQueue set_values]. apply callQueue_entered.
  - apply counted_stage_again; [exact Hs | | apply start_callQueue].
    rewrite start_counters, Hs.
    destruct (Stage_eq_dec s s); [cbn [andb]; lia | contradiction].
Qed.

Lemma second_singleton_call_throws_witness :
  result (append PseudoElementStage "before")
         (perform [(ClassStage, "wide")]
                  (after (append PseudoElementStage "after")
                         (cssSelectorBuilder.element "div")))
    = Throw CardinalityError.
Proof.
  apply (proj1 (second_singleton_call_throws
                  PseudoElementStage (cssSelectorBuilder.element "div")
                  "after" "before" [(ClassStage, "wide")] eq_refl)).
  reflexivity.
Defined.

(* ------------------------------------------------------------------ *)
(** ** Nothing follows a pseudo-element *)

(** The accumulator has taken its pseudo-element. *)
Lemma closed_accumulator (calls : list Call) (b : Builder) :
  callQueue b = 6 ->
  1 <= pseudoElements b ->
  values (perform calls b) = values b
  /\ callQueue (perform calls b) = 6
  /\ 1 <= pseudoElements (perform calls b).
Proof.
  revert b. induction calls as [|[s value] rest IH]; intros b Hq Hp.
  - cbn. auto.
  - cbn [perform].
    assert (Hstep : values (after (append s value) b) = values b
                    /\ callQueue (after (append s value) b) = 6
                    /\ 1 <= pseudoElements (after (append s value) b)).
    { rewrite after_append, Hq.
      destruct s; cbn [ordinal N.ltb N.compare Pos.compare Pos.compare_cont];
        auto.
      cbn [singleton counter andb].
      destruct (N.ltb_spec 0 (pseudoElements b)); [|lia].
      cbn. repeat split; lia. }
    destruct Hstep as (Hv & Hq' & Hp').
    destruct (IH _ Hq' Hp') as (Hv2 & Hq2 & Hp2).
    rewrite Hv2, Hv. auto.
Qed.

Lemma closed_accumulator_throws (s : Stage) (w : string) (b : Builder) :
  callQueue b = 6 ->
  1 <= pseudoElements b ->
  result (append s w) b =
    match s with
    | PseudoElementStage => Throw CardinalityError
    | _ => Throw OrderingError
    end.
Proof.
  intros Hq Hp. rewrite result_append, Hq.
  destruct s; try reflexivity.
  cbn [ordinal N.ltb N.compare Pos.compare Pos.compare_cont singleton counter
       andb].
  destruct (N.ltb_spec 0 (pseudoElements b)); [reflexivity | lia].
Qed.

(** X5. [pseudoElement] closes the accumulator.  After a [pseudoElement]
    call that returned, or a start at [cssSelectorBuilder.pseudoElement],
    every further append throws, now and after any number of further
    calls: a second [pseudoElement] throws the cardinality error and every
    other appender the ordering error.  The text is never changed again. *)
Theorem pseudoElement_closes
    (this : Builder) (v : string) (calls : list Call) (s : Stage) (w : string) :
  let verdict :=
    match s with
    | PseudoElementStage => Throw CardinalityError
    | _ => Throw OrderingError
    end in
  (result (Builder.pseudoElement v) this = Return tt ->
   let closed := after (Builder.pseudoElement v) this in
   result (append s w) (perform calls closed) = verdict
   /\ values (perform calls closed) = values closed)
  /\ (let closed := cssSelectorBuilder.pseudoElement v in
      result (append s w) (perform calls closed) = verdict
      /\ values (perform calls closed) = values closed).
Proof.
  assert (Hgen : forall b : Builder,
             callQueue b = 6 -> 1 <= pseudoElements b ->
             result (append s w) (perform calls b) =
               match s with
               | PseudoElementStage => Throw CardinalityError
               | _ => Throw OrderingError
               end
             /\ values (perform calls b) = values b).
  { intros b Hq Hp. destruct (closed_accumulator calls b Hq Hp) as (Hv & Hq' & Hp').
    split; [apply closed_accumulator_throws; assumption | exact Hv]. }
  cbv zeta. split.
  - change (Builder.pseudoElement v) with (append PseudoElementStage v).
    intro Hret. apply append_returns_inv in Hret as (_ & _ & ->).
    apply Hgen; cbn; lia.
  - apply Hgen; cbn; lia.
Qed.

Lemma pseudoElement_closes_witness :
  result (append ClassStage "big")
         (perform [(IdStage, "x")]
                  (after (Builder.pseudoElement "after")
                         (cssSelectorBuilder.element "p")))
    = Throw OrderingError.
Proof.
  apply (proj1 (pseudoElement_closes (cssSelectorBuilder.element "p") "after"
                  [(IdStage, "x")] ClassStage "big") eq_refl).
Defined.

(* ------------------------------------------------------------------ *)
(** ** The [element] appender *)

(** X6. On an accumulator created by the facade, the appender [element]
    never returns, at any point of its life: a start at
    [cssSelectorBuilder.element] has already counted its element, and
    every other start is already past the element stage.  An element can
    only be given as the facade entry of a chain. *)
Theorem element_appender_always_throws
    (s0 : Stage) (v0 : string) (calls : list Call) (value : string) :
  let this := perform calls (start s0 v0) in
  (result (Builder.element value) this = Throw OrderingError
   \/ result (Builder.element value) this = Throw CardinalityError)
  /\ values (after (Builder.element value) this) = values this.
Proof.
  cbv zeta. change (Builder.element value) with (append ElementStage value).
  rewrite result_append, after_append.
  pose proof (callQueue_perform_latest calls (start s0 v0)) as Hq.
  pose proof (latest_ge (callQueue (start s0 v0)) calls) as Hge.
  rewrite <- Hq, start_callQueue in Hge. clear Hq.
  pose proof (counter_perform ElementStage calls (start s0 v0)) as Hc.
  rewrite start_counters in Hc.
  cbn [ordinal singleton andb].
  destruct (N.ltb_spec 1 (callQueue (perform calls (start s0 v0)))) as [|Hle];
    [auto|].
  assert (s0 = ElementStage) as ->
    by (destruct s0; cbn [ordinal] in Hge; lia || reflexivity).
  cbn [singleton andb] in Hc.
  destruct (Stage_eq_dec ElementStage ElementStage); [|contradiction].
  destruct (N.ltb_spec 0 (counter ElementStage (perform calls (start ElementStage v0))));
    [|lia].
  split; [auto | apply values_entered].
Qed.

(* ------------------------------------------------------------------ *)
(** ** The text of an accumulator is always a selector in grammar order *)

Lemma append_throws_values (s : Stage) (value : string) (this : Builder) (e : exn) :
  result (append s value) this = Throw e ->
  values (after (append s value) this) = values this.
Proof.
  rewrite result_append, after_append.
  destruct (_ <? callQueue this); [reflexivity|].
  destruct (_ && _); [intros _; apply values_entered | discriminate].
Qed.

Lemma accepted_chain (calls : list Call) (this clean : Builder) :
  shadows this clean ->
  result (chain (accepted calls this)) clean = Return tt
  /\ shadows (perform calls this) (after (chain (accepted calls this)) clean).
Proof.
  revert this clean.
  induction calls as [|[s value] rest IH]; intros this clean Hsh.
  - split; [reflexivity | exact Hsh].
  - destruct Hsh as (Hv & Hq & Hc). cbn [accepted perform].
    destruct (result (append s value) this) as [[]|e] eqn:Hres.
    + apply append_returns_inv in Hres as (Hle & Hfree & Hafter).
      assert (Hclean : append s value clean
                = (Return tt,
                   set_values (values clean ++ decorated s value)
                              (entered s clean))).
      { rewrite append_spec.
        destruct (N.ltb_spec (ordinal s) (callQueue clean)); [lia|].
        destruct (singleton s) eqn:Hs; cbn [andb]; [|reflexivity].
        specialize (Hc s). rewrite (Hfree eq_refl) in Hc.
        destruct (N.ltb_spec 0 (counter s clean)); [lia | reflexivity]. }
      rewrite Hafter.
      unfold result at 1, after at 1. cbn [chain]. unfold bind.
      rewrite Hclean. apply IH. split; [|split].
      * cbn [values set_values]. now rewrite Hv.
      * cbn [callQueue set_values]. rewrite !callQueue_entered. lia.
      * intro t. rewrite !counter_set_values, !counter_entered.
        specialize (Hc t). destruct (singleton s && _); lia.
    + apply IH. split; [|split].
      * rewrite (append_throws_values _ _ _ _ Hres). exact Hv.
      * rewrite callQueue_after_append. lia.
      * intro t. pose proof (counter_after_append t s value this).
        specialize (Hc t). lia.
Qed.

Lemma chain_cons_step (s : Stage) (value : string) (rest : list Call)
    (this : Builder) :
  result (append s value) this = Return tt ->
  chain ((s, value) :: rest) this = chain rest (after (append s value) this).
Proof.
  unfold result, after. cbn [chain]. unfold bind.
  destruct (append s value this) as [[[]|e] this']; [reflexivity|].
  discriminate.
Qed.

Lemma chain_cons_throw (s : Stage) (value : string) (rest : list Call)
    (this : Builder) (e : exn) :
  result (append s value) this = Throw e ->
  chain ((s, value) :: rest) this = append s value this.
Proof.
  unfold result. cbn [chain]. unfold bind.
  destruct (append s value this) as [[[]|e'] this']; [discriminate|].
  reflexivity.
Qed.

Lemma chain_cons_returned (s : Stage) (value : string) (rest : list Call)
    (this : Builder) :
  result (append s value) this = Return tt ->
  result (chain ((s, value) :: rest)) this
    = result (chain rest) (after (append s value) this)
  /\ after (chain ((s, value) :: rest)) this
       = after (chain rest) (after (append s value) this).
Proof.
  intro H. unfold result, after.
  rewrite (chain_cons_step _ _ _ _ H). split; reflexivity.
Qed.

Lemma chain_cons_thrown (s : Stage) (value : string) (rest : list Call)
    (this : Builder) (e : exn) :
  result (append s value) this = Throw e ->
  result (chain ((s, value) :: rest)) this = Throw e
  /\ after (chain ((s, value) :: rest)) this = after (append s value) this.
Proof.
  intro H. unfold result, after.
  rewrite (chain_cons_throw _ _ _ _ _ H). split; [exact H | reflexivity].
Qed.

Lemma chain_returns_values (calls : list Call) (this : Builder) :
  result (chain calls) this = Return tt ->
  values (after (chain calls) this) = values this ++ rendered calls.
Proof.
  revert this. induction calls as [|[s value] rest IH]; intros this Hret.
  - cbn. now rewrite append_empty_r.
  - destruct (chain_cons_returns _ _ _ _ Hret) as [Hs Hrest].
    unfold after at 1. rewrite (chain_cons_step _ _ _ _ Hs).
    fold (after (chain rest) (after (append s value) this)).
    rewrite (IH _ Hrest).
    apply append_returns_inv in Hs as (_ & _ & ->).
    cbn [values set_values rendered]. apply append_assoc.
Qed.

(** X7. Whatever calls are made on an accumulator created by the facade,
    in whatever order, with every exception caught, its text is at every
    moment the rendering of a chain in grammar order in which [element],
    [id] and [pseudoElement] occur at most once: the starting call
    followed by exactly those calls that returned, in call order.  A call
    that throws contributes nothing. *)
Theorem text_is_always_in_grammar_order
    (s0 : Stage) (v0 : string) (calls : list Call) :
  let kept := (s0, v0) :: accepted calls (start s0 v0) in
  result Builder.stringify (perform calls (start s0 v0)) = Return (rendered kept)
  /\ in_grammar_order kept
  /\ singletons_once kept.
Proof.
  cbv zeta.
  assert (Hrefl : shadows (start s0 v0) (start s0 v0))
    by (split; [reflexivity | split; [lia | intro t; lia]]).
  destruct (accepted_chain calls _ _ Hrefl) as [Hret (Hv & _ & _)].
  split.
  - unfold result. rewrite stringify_spec. cbn [fst rendered].
    rewrite Hv, (chain_returns_values _ _ Hret), start_values. reflexivity.
  - apply continues_start_valid, returns_continues; [|exact Hret].
    intro t. apply start_counters_bounded.
Qed.

(* ------------------------------------------------------------------ *)
(** ** A fluent chain stops at its first throw *)

(** X8. A fluent chain on any accumulator either returns, and the text is
    the text before followed by the decorated values of all its calls, or
    it stops at the first call that throws: the calls before it returned,
    the chain throws the error of that call, the calls after it are not
    made, and the text is the text before followed by the decorated
    values of the calls before the failing one only. *)
Theorem chain_stops_at_first_throw (calls : list Call) (this : Builder) :
  (result (chain calls) this = Return tt
   /\ values (after (chain calls) this) = values this ++ rendered calls)
  \/ exists (pre : list Call) (s : Stage) (value : string) (post : list Call)
            (e : exn),
       calls = (pre ++ (s, value) :: post)%list
       /\ result (chain pre) this = Return tt
       /\ result (append s value) (after (chain pre) this) = Throw e
       /\ result (chain calls) this = Throw e
       /\ after (chain calls) this
            = after (append s value) (after (chain pre) this)
       /\ values (after (chain calls) this) = values this ++ rendered pre.
Proof.
  revert this. induction calls as [|[s value] rest IH]; intro this.
  - left. split; [reflexivity|]. cbn. now rewrite append_empty_r.
  - unfold Call in *.
    destruct (result (append s value) this) as [[]|e] eqn:Hres.
    + pose proof (append_returns_inv _ _ _ Hres) as (_ & _ & Hafter).
      assert (Hv0 : values (after (append s value) this)
                    = values this ++ decorated s value)
        by (rewrite Hafter; reflexivity).
      destruct (chain_cons_returned s value rest this Hres) as [Hr1 Ha1].
      rewrite Hr1, Ha1.
      destruct (IH (after (append s value) this))
        as [[Hret Hv] | (pre & s' & v' & post & e & Heq & Hp & Hs' & Hr & Ha & Hv)].
      * left. split; [exact Hret|]. rewrite Hv, Hv0.
        cbn [rendered]. apply append_assoc.
      * right. exists ((s, value) :: pre), s', v', post, e.
        destruct (chain_cons_returned s value pre this Hres) as [Hr2 Ha2].
        rewrite Hr2, Ha2.
        repeat split; try assumption.
        -- rewrite Heq. reflexivity.
        -- rewrite Hv, Hv0. cbn [rendered]. apply append_assoc.
    + right. exists [], s, value, rest, e.
      destruct (chain_cons_thrown s value rest this e Hres) as [Hr1 Ha1].
      rewrite Hr1, Ha1.
      change (after (chain []) this) with this.
      cbn [app rendered]. rewrite append_empty_r.
      repeat split; try assumption.
      exact (append_throws_values _ _ _ _ Hres).
Qed.

(* ------------------------------------------------------------------ *)
(** ** The text of a combined selector *)

Lemma parts_not_nil (s : Selector) : parts s <> [].
Proof.
  destruct s as [b | s1 c s2]; cbn [parts]; [discriminate|].
  destruct (parts s1); discriminate.
Qed.

Lemma concat_cons (sep x : string) (xs : list string) :
  xs <> [] -> String.concat sep (x :: xs) = x ++ sep ++ String.concat sep xs.
Proof. destruct xs; [contradiction | reflexivity]. Qed.

Lemma concat_app_cons (sep : string) (xs : list string) (y : string)
    (ys : list string) :
  xs <> [] ->
  String.concat sep (xs ++ y :: ys)
    = String.concat sep xs ++ sep ++ String.concat sep (y :: ys).
Proof.
  induction xs as [|x xs IH]; [contradiction|]. intros _.
  destruct xs as [|x' xs].
  - reflexivity.
  - change ((x :: x' :: xs) ++ y :: ys)%list
      with (x :: ((x' :: xs) ++ y :: ys))%list.
    rewrite concat_cons by discriminate.
    rewrite IH by discriminate.
    rewrite (concat_cons sep x (x' :: xs)) by discriminate.
    now rewrite !append_assoc.
Qed.

Lemma stringify_parts (s : Selector) :
  stringify s = Return (String.concat " " (parts s)).
Proof.
  induction s as [b | s1 IH1 c s2 IH2]; [reflexivity|].
  cbn [stringify parts]. rewrite IH1, IH2. f_equal.
  rewrite concat_app_cons by apply parts_not_nil.
  rewrite concat_cons by apply parts_not_nil. reflexivity.
Qed.

(** X9. The [stringify()] of a selector built with [combine], however
    deeply nested, is the texts of its accumulators and its tokens in
    left-to-right order, joined by single spaces: only that sequence
    matters, not the shape of the nesting.  In particular combining to
    the left and combining to the right give the same text. *)
Theorem combine_text_ignores_nesting (s : Selector) :
  stringify s = Return (String.concat " " (parts s))
  /\ forall (a b c : Selector) (t u : string),
       stringify (cssSelectorBuilder.combine
                    (cssSelectorBuilder.combine a t b) u c)
         = stringify (cssSelectorBuilder.combine
                        a t (cssSelectorBuilder.combine b u c)).
Proof.
  split; [apply stringify_parts|].
  intros a b c t u. rewrite !stringify_parts. f_equal. f_equal.
  unfold cssSelectorBuilder.combine. cbn [parts].
  rewrite <- List.app_assoc. reflexivity.
Qed.

(* ------------------------------------------------------------------ *)
(** ** The area of a rectangle *)

(** X10. The area does not depend on which side is passed as the width:
    [Rectangle(w, h).getArea()] and [Rectangle(h, w).getArea()] are the
    same number. *)
Theorem Rectangle_area_swap (w h : float) :
  RectangleTask.getArea (RectangleTask.Rectangle w h) tt
    = RectangleTask.getArea (RectangleTask.Rectangle h w) tt.
Proof. cbn. apply float_mul_comm. Qed.

(** X11. [Rectangle] accepts a side that is not a number, and the area is
    then not a number either, whatever the other side is. *)
Theorem Rectangle_area_nan (x : float) :
  RectangleTask.getArea (RectangleTask.Rectangle nan x) tt = nan
  /\ RectangleTask.getArea (RectangleTask.Rectangle x nan) tt = nan.
Proof.
  assert (H : (nan * x)%float = nan).
  { apply Prim2SF_inj. rewrite mul_spec. reflexivity. }
  cbn. split; [rewrite float_mul_comm|]; exact H.
Qed.
